(** * EchoWeaver: the dream session controller of [src/App.tsx]

    The [App] component holds five pieces of React state and one
    asynchronous handler, [handleWeaveFragment], that calls the narrative
    service and then the image service.  The handler is embedded as a term
    of a small task monad (state setters, awaits, exceptions) that is then
    run against the component state and a pair of service responses. *)

From Stdlib Require Import List NArith Bool String Ascii Lia.
From ExtLib Require Import Structures.Monad Structures.MonadExc.
Import ListNotations.
Import MonadNotation.
Local Open Scope monad_scope.
Local Open Scope N_scope.

(** ** JavaScript strings and thrown values *)

Module JS.

(** A JavaScript string is a sequence of UTF-16 code units. *)
Definition js_string : Type := list N.

(** An ASCII literal of the source as a sequence of code units. *)
Definition lit (s : string) : js_string :=
  map N_of_ascii (list_ascii_of_string s).

(** ECMAScript WhiteSpace and LineTerminator code points, the ones
    [String.prototype.trim] strips.  All of them are in the BMP, hence
    single code units. *)
Definition isWhiteSpace (c : N) : bool :=
  (9 <=? c) && (c <=? 13)              (* TAB, LF, VT, FF, CR *)
  || (c =? 32)                         (* SPACE *)
  || (c =? 160)                        (* NO-BREAK SPACE *)
  || (c =? 5760)                       (* OGHAM SPACE MARK *)
  || (8192 <=? c) && (c <=? 8202)      (* EN QUAD .. HAIR SPACE *)
  || (c =? 8232) || (c =? 8233)        (* LINE / PARAGRAPH SEPARATOR *)
  || (c =? 8239)                       (* NARROW NO-BREAK SPACE *)
  || (c =? 8287)                       (* MEDIUM MATHEMATICAL SPACE *)
  || (c =? 12288)                      (* IDEOGRAPHIC SPACE *)
  || (c =? 65279).                     (* ZERO WIDTH NO-BREAK SPACE *)

Fixpoint trimStart (s : js_string) : js_string :=
  match s with
  | [] => []
  | c :: rest => if isWhiteSpace c then trimStart rest else s
  end.

Definition trimEnd (s : js_string) : js_string :=
  rev (trimStart (rev s)).

(** [s.trim()] *)
Definition trim (s : js_string) : js_string := trimEnd (trimStart s).

(** ToBoolean on a string: only the empty string is falsy. *)
Definition truthy (s : js_string) : bool :=
  match s with
  | [] => false
  | _ :: _ => true
  end.

(** [a === b] on two strings. *)
Fixpoint strictEq (a b : js_string) : bool :=
  match a, b with
  | [], [] => true
  | x :: a', y :: b' => (x =? y) && strictEq a' b'
  | _, _ => false
  end.

(** ToBoolean on [string | null] and [string | undefined]. *)
Definition truthy_opt (o : option js_string) : bool :=
  match o with
  | None => false
  | Some s => truthy s
  end.

(** Values that are not instances of [Error], as far as the handler
    can tell them apart (it cannot). *)
Inductive non_error : Type :=
| Undefined
| StringValue (s : js_string)
| PlainObject (message : option js_string).

(** What a [catch] clause receives. *)
Inductive thrown : Type :=
| ErrorInstance (message : js_string)
| NotAnError (v : non_error).

(** [e instanceof Error ? e.message : fallback] *)
Definition messageOr (e : thrown) (fallback : js_string) : js_string :=
  match e with
  | ErrorInstance message => message
  | NotAnError _ => fallback
  end.

(** A settled promise. *)
Inductive settled : Type :=
| Fulfilled (v : js_string)
| Rejected (e : thrown).

End JS.
Import JS.

(** ** Component state (lines 12-19) *)

Record DreamState : Type := mkDreamState {
  narrative : js_string;
  imageUrl : option js_string
}.

Record AppState : Type := mkAppState {
  dreamState : DreamState;
  isLoading : bool;
  error : option js_string;
  apiKeyOk : bool;
  showWelcome : bool
}.

(** The [useState] initial values. *)
Definition initialState : AppState :=
  {| dreamState := {| narrative := []; imageUrl := None |};
     isLoading := false;
     error := None;
     apiKeyOk := false;
     showWelcome := true |}.

(** ** Effects of the handler *)

(** The state setters the handler calls, and [console.error].
    [SetNarrative n] is [setDreamState(prev => ({...prev, narrative: n}))],
    [SetImageUrl u] is [setDreamState(prev => ({...prev, imageUrl: u}))]. *)
Inductive action : Type :=
| SetIsLoading (b : bool)
| SetError (e : option js_string)
| SetApiKeyOk (b : bool)
| SetShowWelcome (b : bool)
| SetNarrative (n : js_string)
| SetImageUrl (u : js_string)
| ConsoleError (label : js_string) (e : thrown).

(** The two functions imported from [./services/geminiService]. *)
Inductive call : Type :=
| WeaveNarrative (currentNarrative fragment : js_string)
| GenerateDreamImage (prompt : js_string).

Definition perform (a : action) (st : AppState) : AppState :=
  match a with
  | SetIsLoading b =>
      {| dreamState := dreamState st; isLoading := b; error := error st;
         apiKeyOk := apiKeyOk st; showWelcome := showWelcome st |}
  | SetError e =>
      {| dreamState := dreamState st; isLoading := isLoading st; error := e;
         apiKeyOk := apiKeyOk st; showWelcome := showWelcome st |}
  | SetApiKeyOk b =>
      {| dreamState := dreamState st; isLoading := isLoading st;
         error := error st; apiKeyOk := b; showWelcome := showWelcome st |}
  | SetShowWelcome b =>
      {| dreamState := dreamState st; isLoading := isLoading st;
         error := error st; apiKeyOk := apiKeyOk st; showWelcome := b |}
  | SetNarrative n =>
      {| dreamState := {| narrative := n;
                          imageUrl := imageUrl (dreamState st) |};
         isLoading := isLoading st; error := error st;
         apiKeyOk := apiKeyOk st; showWelcome := showWelcome st |}
  | SetImageUrl u =>
      {| dreamState := {| narrative := narrative (dreamState st);
                          imageUrl := Some u |};
         isLoading := isLoading st; error := error st;
         apiKeyOk := apiKeyOk st; showWelcome := showWelcome st |}
  | ConsoleError _ _ => st
  end.

(** ** The task monad: an [async] function body *)

Module Task.

(** A computation that performs actions, awaits service calls, and
    completes normally or by throwing.  The continuation of [Await]
    receives the settled promise. *)
Inductive task (A : Type) : Type :=
| Ret (a : A)
| Throw (e : thrown)
| Act (a : action) (k : task A)
| Await (c : call) (k : settled -> task A).

Arguments Ret {A} a.
Arguments Throw {A} e.
Arguments Act {A} a k.
Arguments Await {A} c k.

Fixpoint bind {A B : Type} (m : task A) (f : A -> task B) : task B :=
  match m with
  | Ret a => f a
  | Throw e => Throw e
  | Act a k => Act a (bind k f)
  | Await c k => Await c (fun r => bind (k r) f)
  end.

(** [try { m } catch (e) { h e }] *)
Fixpoint tryCatch {A : Type} (m : task A) (h : thrown -> task A) : task A :=
  match m with
  | Ret a => Ret a
  | Throw e => h e
  | Act a k => Act a (tryCatch k h)
  | Await c k => Await c (fun r => tryCatch (k r) h)
  end.

(** [try { m } finally { fin }]: [fin] runs on either completion of [m],
    which is then resumed (a completion of [fin] by throwing wins). *)
Fixpoint tryFinally {A : Type} (m : task A) (fin : task unit) : task A :=
  match m with
  | Ret a => bind fin (fun _ => Ret a)
  | Throw e => bind fin (fun _ => Throw e)
  | Act a k => Act a (tryFinally k fin)
  | Await c k => Await c (fun r => tryFinally (k r) fin)
  end.

(** A setter call, or [console.error]. *)
Definition act (a : action) : task unit := Act a (Ret tt).

(** [await c]: the fulfilment value, or the rejection reason thrown. *)
Definition await (c : call) : task js_string :=
  Await c (fun r =>
    match r with
    | Fulfilled v => Ret v
    | Rejected e => Throw e
    end).

#[global] Instance Monad_task : Monad task :=
  {| ret := @Ret; Monad.bind := @bind |}.

#[global] Instance Exc_task : MonadExc thrown task :=
  {| raise := @Throw; catch := @tryCatch |}.

End Task.
Import Task.

(** ** The handler (lines 32-72) *)

Definition narrativeFallback : js_string :=
  lit "Narrative weaving failed. The dream's thread is lost.".

Definition imageFallback : js_string :=
  lit "Image generation failed. The dream's vision flickers.".

Definition dataUrlPrefix : js_string := lit "data:image/png;base64,".

(** The two line feeds of the template literal on line 48. *)
Definition blankLine : js_string := [10; 10].

(** Lines 41-50: the pair [(newFullNarrative, imagePromptSegment)].
    [capturedNarrative] is [dreamState.narrative] as the closure captured
    it. *)
Definition nextSegments (capturedNarrative narrativeResponse : js_string)
  : js_string * js_string :=
  if negb (truthy capturedNarrative)
  then (narrativeResponse, narrativeResponse)
  else (capturedNarrative ++ blankLine ++ narrativeResponse,
        narrativeResponse).

(** The body under the outer [try] (lines 39-64). *)
Definition weaveAndPaint (capturedNarrative fragment : js_string) : task unit :=
  narrativeResponse <- await (WeaveNarrative capturedNarrative fragment) ;;
  let '(newFullNarrative, imagePromptSegment) :=
    nextSegments capturedNarrative narrativeResponse in
  act (SetNarrative newFullNarrative) ;;
  act (SetShowWelcome false) ;;
  catch
    (base64Image <- await (GenerateDreamImage imagePromptSegment) ;;
     act (SetImageUrl (dataUrlPrefix ++ base64Image)))
    (fun imgError =>
       act (ConsoleError (lit "Image generation error:") imgError) ;;
       act (SetError (Some (messageOr imgError imageFallback)))).

(** [handleWeaveFragment], with the two values in its dependency list
    ([apiKeyOk], [dreamState.narrative]) as the closure captured them. *)
Definition handleWeaveFragment
    (capturedApiKeyOk : bool) (capturedNarrative : js_string)
    (fragment : js_string) : task unit :=
  if negb capturedApiKeyOk || negb (truthy (trim fragment)) then ret tt
  else
    act (SetIsLoading true) ;;
    act (SetError None) ;;
    tryFinally
      (catch
         (weaveAndPaint capturedNarrative fragment)
         (fun narrativeError =>
            act (ConsoleError (lit "Narrative weaving error:") narrativeError) ;;
            act (SetError (Some (messageOr narrativeError narrativeFallback)))))
      (act (SetIsLoading false)).

(** ** Running a task against the state and the services *)

(** How the two services settle the promises they return.  A single run of
    the handler calls each service at most once. *)
Record Services : Type := mkServices {
  weaveNarrative : js_string -> js_string -> settled;
  generateDreamImage : js_string -> settled
}.

Definition respond (svc : Services) (c : call) : settled :=
  match c with
  | WeaveNarrative currentNarrative fragment =>
      weaveNarrative svc currentNarrative fragment
  | GenerateDreamImage prompt => generateDreamImage svc prompt
  end.

(** What a run leaves behind, in program order.  [Called c pending] records
    the state the setters have produced when the task suspends on [c]: it
    is what the component renders while the call is in flight. *)
Inductive event : Type :=
| Performed (a : action)
| Called (c : call) (pending : AppState).

Inductive completion (A : Type) : Type :=
| Normal (a : A)
| Abrupt (e : thrown).

Arguments Normal {A} a.
Arguments Abrupt {A} e.

Record outcome (A : Type) : Type := mkOutcome {
  final : AppState;
  trace : list event;
  result : completion A
}.

Arguments mkOutcome {A} final trace result.
Arguments final {A} o.
Arguments trace {A} o.
Arguments result {A} o.

Definition logged {A : Type} (e : event) (o : outcome A) : outcome A :=
  {| final := final o; trace := e :: trace o; result := result o |}.

Fixpoint run {A : Type} (svc : Services) (m : task A) (st : AppState)
  : outcome A :=
  match m with
  | Ret a => {| final := st; trace := []; result := Normal a |}
  | Throw e => {| final := st; trace := []; result := Abrupt e |}
  | Act a k => logged (Performed a) (run svc k (perform a st))
  | Await c k => logged (Called c st) (run svc (k (respond svc c)) st)
  end.

(** ** Mounting (lines 21-30) *)

Definition apiKeyMissing : js_string :=
  lit "API Key not configured. Please set the API_KEY environment variable.".

(** The [useEffect] callback; [API_KEY] is [process.env.API_KEY]. *)
Definition mountEffect (API_KEY : option js_string) : task unit :=
  if truthy_opt API_KEY
     && match API_KEY with
        | Some key => negb (strictEq (trim key) [])
        | None => false
        end
  then act (SetApiKeyOk true)
  else act (SetError (Some apiKeyMissing)) ;; act (SetApiKeyOk false).

Definition noServices : Services :=
  {| weaveNarrative := fun _ _ => Rejected (NotAnError Undefined);
     generateDreamImage := fun _ => Rejected (NotAnError Undefined) |}.

(** The component state once the mount effect has run. *)
Definition mounted (API_KEY : option js_string) : AppState :=
  final (run noServices (mountEffect API_KEY) initialState).

(** ** Submitting a fragment *)

(** One call of the handler the component currently exposes: [useCallback]
    rebuilds it whenever [apiKeyOk] or [dreamState.narrative] changes, so
    the closure holds the values of the state it is invoked in. *)
Definition submitFragment (svc : Services) (st : AppState)
    (fragment : js_string) : outcome unit :=
  run svc
    (handleWeaveFragment (apiKeyOk st) (narrative (dreamState st)) fragment)
    st.

(** A session: submissions made one after the other, each settled before
    the next, each with the services' answers of its time. *)
Fixpoint session (st : AppState) (subs : list (Services * js_string))
  : AppState :=
  match subs with
  | [] => st
  | (svc, fragment) :: rest =>
      session (final (submitFragment svc st fragment)) rest
  end.

(** ** The view (lines 75-120) *)

Inductive screen : Type :=
| ConfigurationError (message : option js_string)
| Main (spinner : bool) (errorBanner : option js_string)
       (welcome : bool) (dreamscape : option DreamState).

Definition render (st : AppState) : screen :=
  if negb (apiKeyOk st) && negb (isLoading st)
  then ConfigurationError (error st)
  else
    Main (isLoading st)
         (if truthy_opt (error st) && negb (isLoading st)
          then error st else None)
         (negb (isLoading st)
          && (showWelcome st || negb (truthy (narrative (dreamState st)))))
         (if negb (showWelcome st) && truthy (narrative (dreamState st))
          then Some (dreamState st) else None).

(** Whether the welcome block (lines 100-108) is on screen. *)
Definition welcomeShown (st : AppState) : bool :=
  match render st with
  | ConfigurationError _ => false
  | Main _ _ welcome _ => welcome
  end.

(** Whether the narrative display (lines 110-115) is on screen. *)
Definition dreamscapeShown (st : AppState) : bool :=
  match render st with
  | ConfigurationError _ => false
  | Main _ _ _ (Some _) => true
  | Main _ _ _ None => false
  end.

(** ** Reading a trace *)

Definition calls (evs : list event) : list call :=
  flat_map (fun e => match e with
                     | Called c _ => [c]
                     | Performed _ => []
                     end) evs.

Definition clearsBusy (e : event) : bool :=
  match e with
  | Performed (SetIsLoading false) => true
  | _ => false
  end.

(** How many times [setIsLoading(false)] was called. *)
Definition busyCleared (evs : list event) : nat :=
  List.length (filter clearsBusy evs).

(** The submission passes the guard on line 33. *)
Definition admitted_by_guard (st : AppState) (fragment : js_string) : Prop :=
  apiKeyOk st = true /\ trim fragment <> [].

(** The state in which the narrative call is in flight. *)
Definition started (st : AppState) : AppState :=
  perform (SetError None) (perform (SetIsLoading true) st).

(** The state in which the image call is in flight. *)
Definition committed (st : AppState) (newFullNarrative : js_string) : AppState :=
  perform (SetShowWelcome false)
    (perform (SetNarrative newFullNarrative) (started st)).

(** A submission that leaves no mark: the four fields the user can see
    are as before and no service was called. *)
Definition silentNoOp (svc : Services) (st : AppState)
    (fragment : js_string) : Prop :=
  let o := submitFragment svc st fragment in
  narrative (dreamState (final o)) = narrative (dreamState st)
  /\ imageUrl (dreamState (final o)) = imageUrl (dreamState st)
  /\ error (final o) = error st
  /\ isLoading (final o) = isLoading st
  /\ calls (trace o) = [].

(** ** Scenarios of the specification, run on the embedding *)

Definition readyState : AppState := mounted (Some (lit "k-123")).

Definition fogServices : Services :=
  {| weaveNarrative := fun _ _ => Fulfilled (lit "A door opens into fog.");
     generateDreamImage := fun _ => Fulfilled (lit "iVBORw0KGgo=") |}.

Definition stepServices : Services :=
  {| weaveNarrative := fun _ _ =>
       Fulfilled (lit "You step through and the fog swallows you.");
     generateDreamImage := fun _ => Rejected (NotAnError Undefined) |}.

Definition quotaServices : Services :=
  {| weaveNarrative := fun _ _ => Rejected (ErrorInstance (lit "quota exceeded"));
     generateDreamImage := fun _ => Fulfilled (lit "iVBORw0KGgo=") |}.

(** A narrative service that throws something that is not an [Error]. *)
Definition brokenServices : Services :=
  {| weaveNarrative := fun _ _ => Rejected (NotAnError Undefined);
     generateDreamImage := fun _ => Fulfilled (lit "iVBORw0KGgo=") |}.

(** A narrative service that answers with the empty string. *)
Definition muteServices : Services :=
  {| weaveNarrative := fun _ _ => Fulfilled [];
     generateDreamImage := fun _ => Fulfilled (lit "iVBORw0KGgo=") |}.

(** The state after the first scenario. *)
Definition fogState : AppState :=
  final (submitFragment fogServices readyState (lit "A door opens.")).

(** The same state while a further generation is in flight. *)
Definition busyState : AppState := perform (SetIsLoading true) fogState.

(** The state of a session that was mounted without a credential. *)
Definition blockedState : AppState := mounted None.

(** ** The rest of the view *)

(** Whether the spinner (line 93) is on screen. *)
Definition spinnerShown (st : AppState) : bool :=
  match render st with
  | ConfigurationError _ => false
  | Main spinner _ _ _ => spinner
  end.

(** The message in the error box of the main screen (lines 94-98), if the
    box is on screen. *)
Definition errorBanner (st : AppState) : option js_string :=
  match render st with
  | ConfigurationError _ => None
  | Main _ banner _ _ => banner
  end.

(** ** Handlers of an earlier render, and runs that overlap *)

(** A call of the handler some render built: the closure holds the
    [apiKeyOk] and [dreamState.narrative] of that render, while the
    setters act on the state of the moment. *)
Definition invoke (svc : Services) (capturedApiKeyOk : bool)
    (capturedNarrative fragment : js_string) (st : AppState) : outcome unit :=
  run svc (handleWeaveFragment capturedApiKeyOk capturedNarrative fragment) st.

(** The setter calls of a trace, in order. *)
Definition actions (evs : list event) : list action :=
  flat_map (fun e => match e with
                     | Performed a => [a]
                     | Called _ _ => []
                     end) evs.

(** The state a sequence of setter calls leads to. *)
Definition replay (acts : list action) (st : AppState) : AppState :=
  fold_left (fun s a => perform a s) acts st.

(** [interleaving l1 l2 l]: [l] holds the elements of [l1] and [l2], each
    list in its own order. *)
Inductive interleaving {A : Type} : list A -> list A -> list A -> Prop :=
| interleaving_nil : interleaving [] [] []
| interleaving_left (a : A) (l1 l2 l : list A) :
    interleaving l1 l2 l -> interleaving (a :: l1) l2 (a :: l)
| interleaving_right (a : A) (l1 l2 l : list A) :
    interleaving l1 l2 l -> interleaving l1 (a :: l2) (a :: l).

Definition writesNarrative (a : action) : option js_string :=
  match a with
  | SetNarrative n => Some n
  | _ => None
  end.

(** The narrative of the last [SetNarrative] of a sequence, if any. *)
Fixpoint lastNarrativeWrite (acts : list action) : option js_string :=
  match acts with
  | [] => None
  | a :: rest =>
      match lastNarrativeWrite rest with
      | Some n => Some n
      | None => writesNarrative a
      end
  end.

(** The credential passes the test of the mount effect (line 24). *)
Definition usableKey (API_KEY : option js_string) : bool :=
  match API_KEY with
  | Some key => negb (forallb isWhiteSpace key)
  | None => false
  end.

(** * Properties *)

(** ** Trimming *)

Lemma trimStart_nil_iff (s : js_string) :
  trimStart s = [] <-> forallb isWhiteSpace s = true.
Proof.
  induction s as [| c rest IH]; simpl.
  - split; reflexivity.
  - destruct (isWhiteSpace c); simpl.
    + exact IH.
    + split; discriminate.
Qed.

Lemma trimStart_head (s : js_string) (c : N) (rest : js_string) :
  trimStart s = c :: rest -> isWhiteSpace c = false.
Proof.
  induction s as [| d s' IH]; simpl.
  - discriminate.
  - destruct (isWhiteSpace d) eqn:Hd.
    + exact IH.
    + intros H. injection H as -> _. exact Hd.
Qed.

Lemma forallb_rev (f : N -> bool) (s : js_string) :
  forallb f (rev s) = forallb f s.
Proof.
  induction s as [| c rest IH]; simpl.
  - reflexivity.
  - rewrite forallb_app, IH. simpl.
    rewrite andb_true_r. apply andb_comm.
Qed.

(** [s.trim()] is empty exactly when [s] is empty or all white space. *)
Lemma trim_nil_iff (s : js_string) :
  trim s = [] <-> forallb isWhiteSpace s = true.
Proof.
  unfold trim, trimEnd. split.
  - intros H.
    assert (Hr : trimStart (rev (trimStart s)) = []).
    { rewrite <- (rev_involutive (trimStart (rev (trimStart s)))), H.
      reflexivity. }
    apply trimStart_nil_iff in Hr. rewrite forallb_rev in Hr.
    destruct (trimStart s) as [| c rest] eqn:Hs.
    + apply trimStart_nil_iff. exact Hs.
    + apply trimStart_head in Hs. simpl in Hr.
      rewrite Hs in Hr. discriminate.
  - intros H. apply trimStart_nil_iff in H. rewrite H. reflexivity.
Qed.

(** ** The guard on line 33 *)

Lemma guard_open (st : AppState) (fragment : js_string) :
  admitted_by_guard st fragment ->
  negb (apiKeyOk st) || negb (truthy (trim fragment)) = false.
Proof.
  intros [Hkey Hfrag]. rewrite Hkey.
  destruct (trim fragment); [contradiction Hfrag; reflexivity | reflexivity].
Qed.

Lemma guard_shut (st : AppState) (fragment : js_string) :
  apiKeyOk st = false \/ trim fragment = [] ->
  negb (apiKeyOk st) || negb (truthy (trim fragment)) = true.
Proof.
  intros [H | H]; rewrite H; simpl.
  - reflexivity.
  - apply orb_true_r.
Qed.

Lemma guard_decide (st : AppState) (fragment : js_string) :
  admitted_by_guard st fragment
  \/ (apiKeyOk st = false \/ trim fragment = []).
Proof.
  unfold admitted_by_guard.
  destruct (apiKeyOk st); [| right; left; reflexivity].
  destruct (trim fragment) eqn:Ht; [right; right; reflexivity |].
  left. split; [reflexivity | discriminate].
Qed.

(** ** The four ways a submission can go *)

Section Paths.

Variable svc : Services.
Variable st : AppState.
Variable fragment : js_string.

Let current : js_string := narrative (dreamState st).

Lemma path_rejected_by_guard :
  apiKeyOk st = false \/ trim fragment = [] ->
  submitFragment svc st fragment
  = {| final := st; trace := []; result := Normal tt |}.
Proof.
  intros H. unfold submitFragment, handleWeaveFragment.
  rewrite (guard_shut st fragment H). reflexivity.
Qed.

Lemma path_narrative_failed (e : thrown) :
  admitted_by_guard st fragment ->
  weaveNarrative svc current fragment = Rejected e ->
  submitFragment svc st fragment
  = {| final :=
         perform (SetIsLoading false)
           (perform (SetError (Some (messageOr e narrativeFallback)))
              (started st));
       trace :=
         [ Performed (SetIsLoading true);
           Performed (SetError None);
           Called (WeaveNarrative current fragment) (started st);
           Performed (ConsoleError (lit "Narrative weaving error:") e);
           Performed (SetError (Some (messageOr e narrativeFallback)));
           Performed (SetIsLoading false) ];
       result := Normal tt |}.
Proof.
  intros Hg Hw. unfold submitFragment, handleWeaveFragment.
  rewrite (guard_open st fragment Hg).
  cbn. fold current. rewrite Hw. reflexivity.
Qed.

Lemma path_image_failed (segment : js_string) (e : thrown) :
  admitted_by_guard st fragment ->
  weaveNarrative svc current fragment = Fulfilled segment ->
  generateDreamImage svc segment = Rejected e ->
  submitFragment svc st fragment
  = {| final :=
         perform (SetIsLoading false)
           (perform (SetError (Some (messageOr e imageFallback)))
              (committed st (fst (nextSegments current segment))));
       trace :=
         [ Performed (SetIsLoading true);
           Performed (SetError None);
           Called (WeaveNarrative current fragment) (started st);
           Performed (SetNarrative (fst (nextSegments current segment)));
           Performed (SetShowWelcome false);
           Called (GenerateDreamImage segment)
                  (committed st (fst (nextSegments current segment)));
           Performed (ConsoleError (lit "Image generation error:") e);
           Performed (SetError (Some (messageOr e imageFallback)));
           Performed (SetIsLoading false) ];
       result := Normal tt |}.
Proof.
  intros Hg Hw Hi. unfold submitFragment, handleWeaveFragment.
  rewrite (guard_open st fragment Hg).
  cbn. fold current. rewrite Hw.
  unfold nextSegments. destruct (truthy current); cbn; rewrite Hi; reflexivity.
Qed.

Lemma path_both_succeeded (segment base64Image : js_string) :
  admitted_by_guard st fragment ->
  weaveNarrative svc current fragment = Fulfilled segment ->
  generateDreamImage svc segment = Fulfilled base64Image ->
  submitFragment svc st fragment
  = {| final :=
         perform (SetIsLoading false)
           (perform (SetImageUrl (dataUrlPrefix ++ base64Image))
              (committed st (fst (nextSegments current segment))));
       trace :=
         [ Performed (SetIsLoading true);
           Performed (SetError None);
           Called (WeaveNarrative current fragment) (started st);
           Performed (SetNarrative (fst (nextSegments current segment)));
           Performed (SetShowWelcome false);
           Called (GenerateDreamImage segment)
                  (committed st (fst (nextSegments current segment)));
           Performed (SetImageUrl (dataUrlPrefix ++ base64Image));
           Performed (SetIsLoading false) ];
       result := Normal tt |}.
Proof.
  intros Hg Hw Hi. unfold submitFragment, handleWeaveFragment.
  rewrite (guard_open st fragment Hg).
  cbn. fold current. rewrite Hw.
  unfold nextSegments. destruct (truthy current); cbn; rewrite Hi; reflexivity.
Qed.

End Paths.

(** ** Facts shared by the properties below *)

Lemma nextSegments_snd (current segment : js_string) :
  snd (nextSegments current segment) = segment.
Proof. unfold nextSegments. destruct (truthy current); reflexivity. Qed.

Lemma nextSegments_first (segment : js_string) :
  fst (nextSegments [] segment) = segment.
Proof. reflexivity. Qed.

Lemma nextSegments_later (current segment : js_string) :
  current <> [] ->
  fst (nextSegments current segment) = current ++ [10; 10] ++ segment.
Proof.
  intros H. destruct current; [contradiction H; reflexivity | reflexivity].
Qed.

Lemma nextSegments_grows (current segment : js_string) :
  current <> [] -> fst (nextSegments current segment) <> [].
Proof.
  intros H. rewrite (nextSegments_later _ _ H).
  destruct current; [contradiction H; reflexivity | discriminate].
Qed.

(** What one submission keeps, whatever the services answer. *)
Lemma submitFragment_keeps (svc : Services) (st : AppState)
    (fragment : js_string) :
  let st' := final (submitFragment svc st fragment) in
  apiKeyOk st' = apiKeyOk st
  /\ (showWelcome st = false -> showWelcome st' = false)
  /\ (narrative (dreamState st) <> [] -> narrative (dreamState st') <> []).
Proof.
  destruct (guard_decide st fragment) as [Hg | Hg].
  - destruct (weaveNarrative svc (narrative (dreamState st)) fragment)
      as [segment | e] eqn:Hw.
    + destruct (generateDreamImage svc segment) as [img | e] eqn:Hi.
      * rewrite (path_both_succeeded svc st fragment segment img Hg Hw Hi).
        cbn. repeat split; auto using nextSegments_grows.
      * rewrite (path_image_failed svc st fragment segment e Hg Hw Hi).
        cbn. repeat split; auto using nextSegments_grows.
    + rewrite (path_narrative_failed svc st fragment e Hg Hw).
      cbn. repeat split; auto.
  - rewrite (path_rejected_by_guard svc st fragment Hg).
    cbn. repeat split; auto.
Qed.

(** The same over a whole session. *)
Lemma session_keeps (subs : list (Services * js_string)) (st : AppState) :
  apiKeyOk (session st subs) = apiKeyOk st
  /\ (showWelcome st = false -> showWelcome (session st subs) = false)
  /\ (narrative (dreamState st) <> [] ->
      narrative (dreamState (session st subs)) <> []).
Proof.
  revert st. induction subs as [| [svc fragment] rest IH]; intros st; simpl.
  - repeat split; auto.
  - destruct (submitFragment_keeps svc st fragment) as (Hk & Hw & Hn).
    destruct (IH (final (submitFragment svc st fragment))) as (Hk' & Hw' & Hn').
    repeat split.
    + rewrite Hk'. exact Hk.
    + intros H. apply Hw', Hw, H.
    + intros H. apply Hn', Hn, H.
Qed.

(** While a generation is in flight the welcome block, and the input
    control inside it, are off screen (line 100 tests [!isLoading]); the
    input under the narrative display stays on screen and is only handed
    the flag (line 113). *)
Lemma busy_hides_welcome (st : AppState) :
  isLoading st = true -> welcomeShown st = false.
Proof.
  intros H. unfold welcomeShown, render. rewrite H.
  rewrite andb_false_r. reflexivity.
Qed.

(** An [Error] whose message is the empty string is not replaced by the
    fallback: the error becomes the empty string. *)
Lemma empty_message_is_kept (svc : Services) (st : AppState)
    (fragment : js_string) :
  admitted_by_guard st fragment ->
  weaveNarrative svc (narrative (dreamState st)) fragment
  = Rejected (ErrorInstance []) ->
  error (final (submitFragment svc st fragment)) = Some [].
Proof.
  intros Hg Hw.
  rewrite (path_narrative_failed svc st fragment _ Hg Hw). reflexivity.
Qed.

(** ** The no-op guard *)

(** C8: a fragment that is empty or all white space, and any fragment
    submitted while the session is blocked (no credential, [apiKeyOk] is
    false), is a silent no-op: the state is left exactly as it was, so
    narrative, image, error and busy flag are unchanged, and the trace is
    empty, so neither service is called. *)
Theorem blank_or_blocked_is_noop (svc : Services) (st : AppState)
    (fragment : js_string) :
  forallb isWhiteSpace fragment = true \/ apiKeyOk st = false ->
  final (submitFragment svc st fragment) = st
  /\ trace (submitFragment svc st fragment) = []
  /\ silentNoOp svc st fragment.
Proof.
  intros H.
  assert (Hshut : apiKeyOk st = false \/ trim fragment = []).
  { destruct H as [H | H]; [right; apply trim_nil_iff; exact H | left; exact H]. }
  unfold silentNoOp.
  rewrite (path_rejected_by_guard svc st fragment Hshut). cbn.
  repeat split.
Qed.

Lemma blank_or_blocked_is_noop_witness :
  (forallb isWhiteSpace [32; 9; 10; 160] = true
   /\ silentNoOp fogServices fogState [32; 9; 10; 160])
  /\ (apiKeyOk blockedState = false
      /\ silentNoOp fogServices blockedState (lit "A door opens.")).
Proof.
  split; split.
  - reflexivity.
  - apply (blank_or_blocked_is_noop fogServices fogState [32; 9; 10; 160]).
    left. reflexivity.
  - reflexivity.
  - apply (blank_or_blocked_is_noop fogServices blockedState (lit "A door opens.")).
    right. reflexivity.
Defined.

(** C1, as the specification has it, fails: in a state whose busy flag is
    set, a non-blank fragment submitted with a credential is not a no-op.
    The handler calls both services and replaces narrative and image. *)
Lemma busy_submission_is_not_noop :
  isLoading busyState = true
  /\ ~ silentNoOp stepServices busyState (lit "I step through.").
Proof.
  split; [reflexivity |].
  intros (_ & _ & _ & _ & Hcalls). vm_compute in Hcalls. discriminate Hcalls.
Qed.

(** C1, amended: with the busy flag set, a submission is a silent no-op
    exactly when the credential is missing or the fragment is blank after
    trimming.  The handler does not read the busy flag. *)
Theorem busy_noop_iff_guard_shut (svc : Services) (st : AppState)
    (fragment : js_string) :
  isLoading st = true ->
  (silentNoOp svc st fragment
   <-> apiKeyOk st = false \/ trim fragment = []).
Proof.
  intros _. split.
  - intros (_ & _ & _ & _ & Hcalls).
    destruct (guard_decide st fragment) as [Hg | Hg]; [exfalso | exact Hg].
    destruct (weaveNarrative svc (narrative (dreamState st)) fragment)
      as [segment | e] eqn:Hw.
    + destruct (generateDreamImage svc segment) as [img | e] eqn:Hi.
      * rewrite (path_both_succeeded svc st fragment segment img Hg Hw Hi)
          in Hcalls.
        discriminate Hcalls.
      * rewrite (path_image_failed svc st fragment segment e Hg Hw Hi)
          in Hcalls.
        discriminate Hcalls.
    + rewrite (path_narrative_failed svc st fragment e Hg Hw) in Hcalls.
      discriminate Hcalls.
  - intros Hshut. unfold silentNoOp.
    rewrite (path_rejected_by_guard svc st fragment Hshut). cbn.
    repeat split.
Qed.

Lemma busy_noop_iff_guard_shut_witness :
  isLoading busyState = true
  /\ (silentNoOp stepServices busyState [32; 32]
      <-> apiKeyOk busyState = false \/ trim [32; 32] = []).
Proof.
  split.
  - reflexivity.
  - apply (busy_noop_iff_guard_shut stepServices busyState [32; 32]).
    reflexivity.
Defined.

(** ** Successful narrative calls *)

(** C2: when the narrative [N] of the state is not empty and the narrative
    service answers with segment [S], the narrative after the submission is
    [N], two line feeds, [S], and the image service is called once, with
    [S] alone as its prompt. *)
Theorem append_law (svc : Services) (st : AppState)
    (fragment N S : js_string) :
  admitted_by_guard st fragment ->
  narrative (dreamState st) = N ->
  N <> [] ->
  weaveNarrative svc N fragment = Fulfilled S ->
  narrative (dreamState (final (submitFragment svc st fragment)))
  = N ++ [10; 10] ++ S
  /\ calls (trace (submitFragment svc st fragment))
     = [WeaveNarrative N fragment; GenerateDreamImage S].
Proof.
  intros Hg HN Hne Hw. subst N.
  destruct (generateDreamImage svc S) as [img | e] eqn:Hi.
  - rewrite (path_both_succeeded svc st fragment S img Hg Hw Hi). cbn.
    split; [apply nextSegments_later; exact Hne | reflexivity].
  - rewrite (path_image_failed svc st fragment S e Hg Hw Hi). cbn.
    split; [apply nextSegments_later; exact Hne | reflexivity].
Qed.

Lemma append_law_witness :
  narrative (dreamState (final
      (submitFragment stepServices fogState (lit "I step through."))))
  = lit "A door opens into fog." ++ [10; 10]
      ++ lit "You step through and the fog swallows you."
  /\ calls (trace (submitFragment stepServices fogState (lit "I step through.")))
     = [ WeaveNarrative (lit "A door opens into fog.") (lit "I step through.");
         GenerateDreamImage (lit "You step through and the fog swallows you.") ].
Proof.
  apply (append_law stepServices fogState (lit "I step through.")
           (lit "A door opens into fog.")
           (lit "You step through and the fog swallows you.")).
  - split; [reflexivity | vm_compute; discriminate].
  - reflexivity.
  - vm_compute; discriminate.
  - reflexivity.
Defined.

(** C3: when the narrative of the state is empty and the narrative service
    answers with segment [S], the narrative after the submission is [S]
    itself, with no separator in front, and the image service is called
    once, with the same [S] as its prompt. *)
Theorem first_fragment_law (svc : Services) (st : AppState)
    (fragment S : js_string) :
  admitted_by_guard st fragment ->
  narrative (dreamState st) = [] ->
  weaveNarrative svc [] fragment = Fulfilled S ->
  narrative (dreamState (final (submitFragment svc st fragment))) = S
  /\ calls (trace (submitFragment svc st fragment))
     = [WeaveNarrative [] fragment; GenerateDreamImage S].
Proof.
  intros Hg HN Hw. rewrite <- HN in Hw.
  destruct (generateDreamImage svc S) as [img | e] eqn:Hi.
  - rewrite (path_both_succeeded svc st fragment S img Hg Hw Hi). cbn.
    rewrite HN. split; reflexivity.
  - rewrite (path_image_failed svc st fragment S e Hg Hw Hi). cbn.
    rewrite HN. split; reflexivity.
Qed.

Lemma first_fragment_law_witness :
  narrative (dreamState (final
      (submitFragment fogServices readyState (lit "A door opens."))))
  = lit "A door opens into fog."
  /\ calls (trace (submitFragment fogServices readyState (lit "A door opens.")))
     = [ WeaveNarrative [] (lit "A door opens.");
         GenerateDreamImage (lit "A door opens into fog.") ].
Proof.
  apply (first_fragment_law fogServices readyState (lit "A door opens.")
           (lit "A door opens into fog.")).
  - split; [reflexivity | vm_compute; discriminate].
  - reflexivity.
  - reflexivity.
Defined.

(** C10: the fragment handed to the narrative service is the submitted
    string itself, white space included.  The first call of an admitted
    submission is the narrative call on the narrative of the state and the
    untouched fragment, and no narrative call in the trace carries any
    other fragment; trimming only feeds the guard. *)
Theorem fragment_forwarded_untrimmed (svc : Services) (st : AppState)
    (fragment : js_string) :
  admitted_by_guard st fragment ->
  hd_error (calls (trace (submitFragment svc st fragment)))
  = Some (WeaveNarrative (narrative (dreamState st)) fragment)
  /\ forall n f,
       In (WeaveNarrative n f) (calls (trace (submitFragment svc st fragment))) ->
       f = fragment.
Proof.
  intros Hg.
  destruct (weaveNarrative svc (narrative (dreamState st)) fragment)
    as [segment | e] eqn:Hw.
  - destruct (generateDreamImage svc segment) as [img | e] eqn:Hi.
    + rewrite (path_both_succeeded svc st fragment segment img Hg Hw Hi). cbn.
      split; [reflexivity |].
      intros n f [H | [H | []]]; [injection H as _ H; symmetry; exact H |].
      discriminate H.
    + rewrite (path_image_failed svc st fragment segment e Hg Hw Hi). cbn.
      split; [reflexivity |].
      intros n f [H | [H | []]]; [injection H as _ H; symmetry; exact H |].
      discriminate H.
  - rewrite (path_narrative_failed svc st fragment e Hg Hw). cbn.
    split; [reflexivity |].
    intros n f [H | []]. injection H as _ H. symmetry. exact H.
Qed.

Lemma fragment_forwarded_untrimmed_witness :
  trim (32 :: 32 :: lit "I step through." ++ [10])
    <> 32 :: 32 :: lit "I step through." ++ [10]
  /\ hd_error (calls (trace (submitFragment stepServices fogState
                               (32 :: 32 :: lit "I step through." ++ [10]))))
     = Some (WeaveNarrative (lit "A door opens into fog.")
               (32 :: 32 :: lit "I step through." ++ [10])).
Proof.
  split.
  - vm_compute; discriminate.
  - apply (fragment_forwarded_untrimmed stepServices fogState
             (32 :: 32 :: lit "I step through." ++ [10])).
    split; [reflexivity | vm_compute; discriminate].
Defined.

(** ** Failures *)

(** C4: when an admitted submission's narrative call fails, narrative and
    image are what they were before the call, the narrative call is the
    only service call (the image service is not invoked), the error is set
    to the message of the thrown [Error] or else to the narrative fallback,
    and the busy flag ends cleared. *)
Theorem narrative_failure_keeps_data (svc : Services) (st : AppState)
    (fragment : js_string) (e : thrown) :
  admitted_by_guard st fragment ->
  weaveNarrative svc (narrative (dreamState st)) fragment = Rejected e ->
  let o := submitFragment svc st fragment in
  narrative (dreamState (final o)) = narrative (dreamState st)
  /\ imageUrl (dreamState (final o)) = imageUrl (dreamState st)
  /\ calls (trace o) = [WeaveNarrative (narrative (dreamState st)) fragment]
  /\ error (final o) = Some (messageOr e narrativeFallback)
  /\ isLoading (final o) = false.
Proof.
  intros Hg Hw o. subst o.
  rewrite (path_narrative_failed svc st fragment e Hg Hw). cbn.
  repeat split.
Qed.

Lemma narrative_failure_keeps_data_witness :
  let o := submitFragment quotaServices fogState (lit "I step through.") in
  narrative (dreamState (final o)) = lit "A door opens into fog."
  /\ imageUrl (dreamState (final o)) = imageUrl (dreamState fogState)
  /\ calls (trace o)
     = [WeaveNarrative (lit "A door opens into fog.") (lit "I step through.")]
  /\ error (final o) = Some (lit "quota exceeded")
  /\ isLoading (final o) = false.
Proof.
  apply (narrative_failure_keeps_data quotaServices fogState
           (lit "I step through.") (ErrorInstance (lit "quota exceeded"))).
  - split; [reflexivity | vm_compute; discriminate].
  - reflexivity.
Defined.

(** C5: when the narrative call of an admitted submission succeeds and the
    image call then fails, the narrative keeps its update (the segment
    alone on a first fragment, otherwise appended after two line feeds),
    the image is what it was before the call, the error is set to the
    message of the thrown [Error] or else to the image fallback, and the
    busy flag ends cleared. *)
Theorem image_failure_keeps_narrative (svc : Services) (st : AppState)
    (fragment S : js_string) (e : thrown) :
  admitted_by_guard st fragment ->
  weaveNarrative svc (narrative (dreamState st)) fragment = Fulfilled S ->
  generateDreamImage svc S = Rejected e ->
  let o := submitFragment svc st fragment in
  narrative (dreamState (final o))
  = match narrative (dreamState st) with
    | [] => S
    | _ :: _ => narrative (dreamState st) ++ [10; 10] ++ S
    end
  /\ imageUrl (dreamState (final o)) = imageUrl (dreamState st)
  /\ error (final o) = Some (messageOr e imageFallback)
  /\ isLoading (final o) = false.
Proof.
  intros Hg Hw Hi o. subst o.
  rewrite (path_image_failed svc st fragment S e Hg Hw Hi). cbn.
  repeat split.
  destruct (narrative (dreamState st)); reflexivity.
Qed.

Lemma image_failure_keeps_narrative_witness :
  let o := submitFragment stepServices fogState (lit "I step through.") in
  narrative (dreamState (final o))
  = lit "A door opens into fog." ++ [10; 10]
      ++ lit "You step through and the fog swallows you."
  /\ imageUrl (dreamState (final o)) = imageUrl (dreamState fogState)
  /\ error (final o) = Some imageFallback
  /\ isLoading (final o) = false.
Proof.
  apply (image_failure_keeps_narrative stepServices fogState
           (lit "I step through.")
           (lit "You step through and the fog swallows you.")
           (NotAnError Undefined)).
  - split; [reflexivity | vm_compute; discriminate].
  - reflexivity.
  - reflexivity.
Defined.

(** C6: whatever the two services answer, an admitted submission ends with
    the busy flag cleared; [setIsLoading(false)] is called exactly once,
    as the last thing the handler does, and the handler itself completes
    normally. *)
Theorem busy_released_once (svc : Services) (st : AppState)
    (fragment : js_string) :
  admitted_by_guard st fragment ->
  let o := submitFragment svc st fragment in
  isLoading (final o) = false
  /\ busyCleared (trace o) = 1%nat
  /\ (exists before, trace o = before ++ [Performed (SetIsLoading false)])
  /\ result o = Normal tt.
Proof.
  intros Hg o. subst o.
  destruct (weaveNarrative svc (narrative (dreamState st)) fragment)
    as [segment | e] eqn:Hw.
  - destruct (generateDreamImage svc segment) as [img | e] eqn:Hi.
    + rewrite (path_both_succeeded svc st fragment segment img Hg Hw Hi). cbn.
      repeat split. eexists (_ :: _ :: _ :: _ :: _ :: _ :: [_]). reflexivity.
    + rewrite (path_image_failed svc st fragment segment e Hg Hw Hi). cbn.
      repeat split.
      eexists (_ :: _ :: _ :: _ :: _ :: _ :: _ :: [_]). reflexivity.
  - rewrite (path_narrative_failed svc st fragment e Hg Hw). cbn.
    repeat split. eexists (_ :: _ :: _ :: _ :: [_]). reflexivity.
Qed.

Lemma busy_released_once_witness :
  let o := submitFragment quotaServices busyState (lit "I step through.") in
  isLoading (final o) = false
  /\ busyCleared (trace o) = 1%nat
  /\ (exists before, trace o = before ++ [Performed (SetIsLoading false)])
  /\ result o = Normal tt.
Proof.
  apply (busy_released_once quotaServices busyState (lit "I step through.")).
  split; [reflexivity | vm_compute; discriminate].
Defined.

(** C7, as the specification has it, fails: when the narrative service
    throws a value that is not an [Error], the error is not the phrase
    "Narrative weaving failed." but a longer one. *)
Lemma fallback_is_not_the_short_phrase :
  admitted_by_guard readyState (lit "A door opens.")
  /\ weaveNarrative brokenServices (narrative (dreamState readyState))
       (lit "A door opens.")
     = Rejected (NotAnError Undefined)
  /\ error (final (submitFragment brokenServices readyState (lit "A door opens.")))
     <> Some (lit "Narrative weaving failed.").
Proof.
  split; [split; [reflexivity | vm_compute; discriminate] |].
  split; [reflexivity |].
  vm_compute. discriminate.
Qed.

(** C7, amended: when the value a failed service call throws is not an
    [Error] instance, the error is set to a fixed phrase: "Narrative
    weaving failed. The dream's thread is lost." for the narrative call,
    "Image generation failed. The dream's vision flickers." for the image
    call. *)
Theorem fallback_phrases (svc : Services) (st : AppState)
    (fragment : js_string) (v : non_error) :
  admitted_by_guard st fragment ->
  (weaveNarrative svc (narrative (dreamState st)) fragment
   = Rejected (NotAnError v) ->
   error (final (submitFragment svc st fragment))
   = Some (lit "Narrative weaving failed. The dream's thread is lost."))
  /\ (forall S,
        weaveNarrative svc (narrative (dreamState st)) fragment = Fulfilled S ->
        generateDreamImage svc S = Rejected (NotAnError v) ->
        error (final (submitFragment svc st fragment))
        = Some (lit "Image generation failed. The dream's vision flickers.")).
Proof.
  intros Hg. split.
  - intros Hw.
    rewrite (path_narrative_failed svc st fragment _ Hg Hw). reflexivity.
  - intros S Hw Hi.
    rewrite (path_image_failed svc st fragment S _ Hg Hw Hi). reflexivity.
Qed.

Lemma fallback_phrases_witness :
  error (final (submitFragment brokenServices readyState (lit "A door opens.")))
  = Some (lit "Narrative weaving failed. The dream's thread is lost.")
  /\ error (final (submitFragment stepServices fogState (lit "I step through.")))
     = Some (lit "Image generation failed. The dream's vision flickers.").
Proof.
  split.
  - apply (fallback_phrases brokenServices readyState (lit "A door opens.")
             Undefined).
    + split; [reflexivity | vm_compute; discriminate].
    + reflexivity.
  - apply (fallback_phrases stepServices fogState (lit "I step through.")
             Undefined)
      with (S := lit "You step through and the fog swallows you.").
    + split; [reflexivity | vm_compute; discriminate].
    + reflexivity.
    + reflexivity.
Defined.

(** ** Commit order and the welcome screen *)

Lemma settled_view (st : AppState) :
  apiKeyOk st = true ->
  showWelcome st = false ->
  narrative (dreamState st) <> [] ->
  welcomeShown st = false /\ dreamscapeShown st = true.
Proof.
  intros Hk Hw Hn. unfold welcomeShown, dreamscapeShown, render.
  rewrite Hk, Hw.
  destruct (narrative (dreamState st)); [contradiction Hn; reflexivity |].
  cbn. split; [apply andb_false_r | reflexivity].
Qed.

(** C9, as the specification has it, fails: a first narrative call that
    succeeds with the empty string clears [showWelcome], yet the settled
    state still has the welcome block on screen and no narrative display,
    because the view also tests [!dreamState.narrative]. *)
Lemma empty_segment_keeps_welcome :
  admitted_by_guard readyState (lit "A door opens.")
  /\ weaveNarrative muteServices (narrative (dreamState readyState))
       (lit "A door opens.")
     = Fulfilled []
  /\ showWelcome (final (submitFragment muteServices readyState
                           (lit "A door opens."))) = false
  /\ welcomeShown (final (submitFragment muteServices readyState
                            (lit "A door opens."))) = true
  /\ dreamscapeShown (final (submitFragment muteServices readyState
                               (lit "A door opens."))) = false.
Proof.
  split; [split; [reflexivity | vm_compute; discriminate] |].
  repeat split.
Qed.

(** C9, amended: when the narrative call of an admitted submission
    succeeds with segment [S], the new narrative and the cleared
    [showWelcome] flag are set before the image service is called (they
    are in the state the component holds while that call is in flight),
    and [showWelcome] stays cleared through every later submission of the
    session (each made once the previous one has settled), failed or not.
    When the committed narrative is not empty, the welcome block is off
    screen and the narrative display on screen after every later
    submission. *)
Theorem narrative_committed_before_image (svc : Services) (st : AppState)
    (fragment S : js_string) (later : list (Services * js_string)) :
  admitted_by_guard st fragment ->
  weaveNarrative svc (narrative (dreamState st)) fragment = Fulfilled S ->
  let o := submitFragment svc st fragment in
  let committedNarrative :=
    match narrative (dreamState st) with
    | [] => S
    | _ :: _ => narrative (dreamState st) ++ [10; 10] ++ S
    end in
  (exists before pending after,
      trace o = before ++ Called (GenerateDreamImage S) pending :: after
      /\ calls before = [WeaveNarrative (narrative (dreamState st)) fragment]
      /\ In (Performed (SetNarrative committedNarrative)) before
      /\ In (Performed (SetShowWelcome false)) before
      /\ narrative (dreamState pending) = committedNarrative
      /\ showWelcome pending = false)
  /\ showWelcome (session (final o) later) = false
  /\ (committedNarrative <> [] ->
      welcomeShown (session (final o) later) = false
      /\ dreamscapeShown (session (final o) later) = true).
Proof.
  intros Hg Hw o committedNarrative.
  assert (Hc : fst (nextSegments (narrative (dreamState st)) S)
               = committedNarrative).
  { subst committedNarrative. destruct (narrative (dreamState st)); reflexivity. }
  assert (Hfinal : apiKeyOk (final o) = true
                   /\ showWelcome (final o) = false
                   /\ narrative (dreamState (final o)) = committedNarrative
                   /\ exists before pending after,
                        trace o
                        = before ++ Called (GenerateDreamImage S) pending :: after
                        /\ calls before
                           = [WeaveNarrative (narrative (dreamState st)) fragment]
                        /\ In (Performed (SetNarrative committedNarrative)) before
                        /\ In (Performed (SetShowWelcome false)) before
                        /\ narrative (dreamState pending) = committedNarrative
                        /\ showWelcome pending = false).
  { subst o. destruct Hg as [Hk Hf]. pose proof (conj Hk Hf) as Hg.
    destruct (generateDreamImage svc S) as [img | e] eqn:Hi.
    - rewrite (path_both_succeeded svc st fragment S img Hg Hw Hi).
      rewrite Hc. cbn. repeat split; [exact Hk |].
      eexists [_; _; _; _; _], _, _. cbn.
      repeat split; auto 8.
    - rewrite (path_image_failed svc st fragment S e Hg Hw Hi).
      rewrite Hc. cbn. repeat split; [exact Hk |].
      eexists [_; _; _; _; _], _, _. cbn.
      repeat split; auto 8. }
  destruct Hfinal as (Hk & Hsw & Hn & Htrace).
  destruct (session_keeps later (final o)) as (Hk' & Hsw' & Hn').
  split; [exact Htrace |]. split; [apply Hsw'; exact Hsw |].
  intros Hne. apply settled_view.
  - rewrite Hk'. exact Hk.
  - apply Hsw'. exact Hsw.
  - apply Hn'. rewrite Hn. exact Hne.
Qed.

Lemma narrative_committed_before_image_witness :
  let o := submitFragment fogServices readyState (lit "A door opens.") in
  let later := [(quotaServices, lit "I step through.");
                (stepServices, lit "I step through.")] in
  showWelcome (session (final o) later) = false
  /\ (lit "A door opens into fog." <> [] ->
      welcomeShown (session (final o) later) = false
      /\ dreamscapeShown (session (final o) later) = true).
Proof.
  apply (narrative_committed_before_image fogServices readyState
           (lit "A door opens.") (lit "A door opens into fog.")
           [(quotaServices, lit "I step through.");
            (stepServices, lit "I step through.")]).
  - split; [reflexivity | vm_compute; discriminate].
  - reflexivity.
Defined.

(** * Further properties of the component *)

(** ** Mounting *)

Lemma strictEq_nil (s : js_string) : strictEq s [] = negb (truthy s).
Proof. destruct s; reflexivity. Qed.

Lemma trim_truthy (s : js_string) :
  truthy (trim s) = negb (forallb isWhiteSpace s).
Proof.
  destruct (forallb isWhiteSpace s) eqn:H.
  - apply trim_nil_iff in H. rewrite H. reflexivity.
  - destruct (trim s) eqn:Ht; [| reflexivity].
    apply trim_nil_iff in Ht. congruence.
Qed.

(** The state the mount effect leaves. *)
Lemma mounted_state (API_KEY : option js_string) :
  mounted API_KEY
  = {| dreamState := {| narrative := []; imageUrl := None |};
       isLoading := false;
       error := if usableKey API_KEY then None else Some apiKeyMissing;
       apiKeyOk := usableKey API_KEY;
       showWelcome := true |}.
Proof.
  unfold mounted, mountEffect, usableKey.
  destruct API_KEY as [key |]; [| reflexivity].
  cbn [truthy_opt]. rewrite strictEq_nil, negb_involutive, trim_truthy.
  destruct (forallb isWhiteSpace key) eqn:Hws.
  - rewrite andb_false_r. reflexivity.
  - destruct key as [| c rest]; [discriminate Hws |]. reflexivity.
Qed.

(** X1: the mount effect accepts the credential exactly when it is
    present and has a code unit that is not white space.  [apiKeyOk] is
    then set and there is no error; otherwise [apiKeyOk] stays false and
    the error is the configuration message.  Either way the narrative is
    empty, there is no image, the busy flag is clear and the welcome flag
    set. *)
Theorem mount_checks_credential (API_KEY : option js_string) :
  apiKeyOk (mounted API_KEY)
  = match API_KEY with
    | Some key => negb (forallb isWhiteSpace key)
    | None => false
    end
  /\ error (mounted API_KEY)
     = (if apiKeyOk (mounted API_KEY) then None
        else Some (lit "API Key not configured. Please set the API_KEY environment variable."))
  /\ dreamState (mounted API_KEY) = {| narrative := []; imageUrl := None |}
  /\ isLoading (mounted API_KEY) = false
  /\ showWelcome (mounted API_KEY) = true.
Proof.
  rewrite mounted_state. cbn. repeat split.
Qed.

(** A session without a credential never leaves its state. *)
Lemma blocked_session_fixed (subs : list (Services * js_string))
    (st : AppState) :
  apiKeyOk st = false -> session st subs = st.
Proof.
  intros H. induction subs as [| [svc fragment] rest IH]; simpl.
  - reflexivity.
  - rewrite (path_rejected_by_guard svc st fragment (or_introl H)). exact IH.
Qed.

(** X2: a session mounted without a usable credential is blocked for
    good: whatever is submitted, and whatever the services would answer,
    the state stays the mounted one and the screen is the configuration
    error screen with the configuration message. *)
Theorem blocked_session_is_inert (API_KEY : option js_string)
    (subs : list (Services * js_string)) :
  usableKey API_KEY = false ->
  session (mounted API_KEY) subs = mounted API_KEY
  /\ render (session (mounted API_KEY) subs)
     = ConfigurationError (Some apiKeyMissing).
Proof.
  intros H.
  assert (Hk : apiKeyOk (mounted API_KEY) = false).
  { rewrite mounted_state. exact H. }
  rewrite (blocked_session_fixed subs _ Hk).
  split; [reflexivity |].
  rewrite mounted_state, H. reflexivity.
Qed.

Lemma blocked_session_is_inert_witness :
  usableKey (Some [32; 9]) = false
  /\ session (mounted (Some [32; 9]))
       [(fogServices, lit "A door opens."); (stepServices, lit "I step through.")]
     = mounted (Some [32; 9])
  /\ render (session (mounted (Some [32; 9]))
       [(fogServices, lit "A door opens."); (stepServices, lit "I step through.")])
     = ConfigurationError (Some apiKeyMissing).
Proof.
  split; [reflexivity |].
  apply (blocked_session_is_inert (Some [32; 9])
           [(fogServices, lit "A door opens.");
            (stepServices, lit "I step through.")]).
  reflexivity.
Defined.

(** ** What a run does to the state *)

(** The final state of a run is the one its setter calls lead to. *)
Lemma run_final_replay {A : Type} (svc : Services) (m : task A)
    (st : AppState) :
  final (run svc m st) = replay (actions (trace (run svc m st))) st.
Proof.
  revert st. induction m as [a | e | a k IH | c k IH]; intros st; cbn.
  - reflexivity.
  - reflexivity.
  - apply IH.
  - apply IH.
Qed.

(** A task cannot read the state: its setter calls, its service calls and
    its completion are the same from any state. *)
Lemma run_any_state {A : Type} (svc : Services) (m : task A)
    (st st' : AppState) :
  actions (trace (run svc m st)) = actions (trace (run svc m st'))
  /\ calls (trace (run svc m st)) = calls (trace (run svc m st'))
  /\ result (run svc m st) = result (run svc m st').
Proof.
  revert st st'. induction m as [a | e | a k IH | c k IH]; intros st st'; cbn.
  - repeat split.
  - repeat split.
  - destruct (IH (perform a st) (perform a st')) as (Ha & Hc & Hr).
    unfold actions, calls in Ha, Hc. rewrite Ha, Hc, Hr. repeat split.
  - destruct (IH (respond svc c) st st') as (Ha & Hc & Hr).
    unfold actions, calls in Ha, Hc. rewrite Ha, Hc, Hr. repeat split.
Qed.

(** The render whose handler captured [capturedApiKeyOk] and
    [capturedNarrative]: an invocation behaves as a submission there. *)
Lemma invoke_as_submission (svc : Services) (capturedApiKeyOk : bool)
    (capturedNarrative fragment : js_string) (st : AppState) :
  let origin :=
    {| dreamState := {| narrative := capturedNarrative; imageUrl := None |};
       isLoading := false; error := None;
       apiKeyOk := capturedApiKeyOk; showWelcome := true |} in
  actions (trace (invoke svc capturedApiKeyOk capturedNarrative fragment st))
  = actions (trace (submitFragment svc origin fragment))
  /\ calls (trace (invoke svc capturedApiKeyOk capturedNarrative fragment st))
     = calls (trace (submitFragment svc origin fragment))
  /\ result (invoke svc capturedApiKeyOk capturedNarrative fragment st)
     = result (submitFragment svc origin fragment).
Proof.
  intros origin. unfold invoke, submitFragment. apply run_any_state.
Qed.

Lemma replay_narrative (acts : list action) (st : AppState) :
  narrative (dreamState (replay acts st))
  = match lastNarrativeWrite acts with
    | Some n => n
    | None => narrative (dreamState st)
    end.
Proof.
  revert st. induction acts as [| a rest IH]; intros st; simpl.
  - reflexivity.
  - unfold replay in IH |- *. simpl. rewrite IH.
    destruct (lastNarrativeWrite rest); [reflexivity |].
    destruct a; reflexivity.
Qed.

Lemma interleaving_no_write (l1 l2 l : list action) :
  interleaving l1 l2 l ->
  lastNarrativeWrite l = None ->
  lastNarrativeWrite l1 = None /\ lastNarrativeWrite l2 = None.
Proof.
  intros H. induction H as [| a l1 l2 l H IH | a l1 l2 l H IH]; simpl.
  - intros _. split; reflexivity.
  - destruct (lastNarrativeWrite l); [discriminate |].
    intros Ha. destruct (IH eq_refl) as [H1 H2]. rewrite H1.
    split; assumption.
  - destruct (lastNarrativeWrite l); [discriminate |].
    intros Ha. destruct (IH eq_refl) as [H1 H2]. rewrite H2.
    split; assumption.
Qed.

(** The last narrative write of an interleaving is the last one of either
    side. *)
Lemma interleaving_last_write (l1 l2 l : list action) :
  interleaving l1 l2 l ->
  lastNarrativeWrite l = lastNarrativeWrite l1
  \/ lastNarrativeWrite l = lastNarrativeWrite l2.
Proof.
  intros H. induction H as [| a l1 l2 l H IH | a l1 l2 l H IH]; simpl.
  - left. reflexivity.
  - destruct (lastNarrativeWrite l) as [n |] eqn:Hl.
    + destruct IH as [IH | IH]; rewrite <- IH; [left | right]; reflexivity.
    + destruct (interleaving_no_write _ _ _ H Hl) as [H1 H2].
      rewrite H1. left. reflexivity.
  - destruct (lastNarrativeWrite l) as [n |] eqn:Hl.
    + destruct IH as [IH | IH]; rewrite <- IH; [left | right]; reflexivity.
    + destruct (interleaving_no_write _ _ _ H Hl) as [H1 H2].
      rewrite H2. right. reflexivity.
Qed.

(** ** The success path *)

(** X3: when both calls of an admitted submission succeed, the image
    reference becomes the answer of the image service behind the prefix
    "data:image/png;base64,", the error is cleared whatever it was before,
    and the busy flag ends cleared, so that no error box is on screen. *)
Theorem full_success_sets_image (svc : Services) (st : AppState)
    (fragment S base64Image : js_string) :
  admitted_by_guard st fragment ->
  weaveNarrative svc (narrative (dreamState st)) fragment = Fulfilled S ->
  generateDreamImage svc S = Fulfilled base64Image ->
  let o := submitFragment svc st fragment in
  imageUrl (dreamState (final o))
  = Some (lit "data:image/png;base64," ++ base64Image)
  /\ error (final o) = None
  /\ isLoading (final o) = false
  /\ errorBanner (final o) = None.
Proof.
  intros Hg Hw Hi o. subst o.
  rewrite (path_both_succeeded svc st fragment S base64Image Hg Hw Hi).
  destruct Hg as [Hk _].
  unfold errorBanner, render. cbn. rewrite Hk. cbn. repeat split.
Qed.

Lemma full_success_sets_image_witness :
  let o := submitFragment fogServices
             (final (submitFragment quotaServices readyState (lit "A door opens.")))
             (lit "A door opens.") in
  error (final (submitFragment quotaServices readyState (lit "A door opens.")))
  = Some (lit "quota exceeded")
  /\ (imageUrl (dreamState (final o))
      = Some (lit "data:image/png;base64," ++ lit "iVBORw0KGgo=")
      /\ error (final o) = None
      /\ isLoading (final o) = false
      /\ errorBanner (final o) = None).
Proof.
  split; [reflexivity |].
  apply (full_success_sets_image fogServices
           (final (submitFragment quotaServices readyState (lit "A door opens.")))
           (lit "A door opens.") (lit "A door opens into fog.")
           (lit "iVBORw0KGgo=")).
  - split; [reflexivity | vm_compute; discriminate].
  - reflexivity.
  - reflexivity.
Defined.

(** ** Screens *)


Lemma settled_screen (st : AppState) :
  apiKeyOk st = true ->
  isLoading st = false ->
  spinnerShown st = false /\ welcomeShown st = negb (dreamscapeShown st).
Proof.
  intros Hk Hl. unfold spinnerShown, welcomeShown, dreamscapeShown, render.
  rewrite Hk, Hl. cbn.
  destruct (showWelcome st), (truthy (narrative (dreamState st)));
    split; reflexivity.
Qed.

Lemma submitFragment_settles (svc : Services) (st : AppState)
    (fragment : js_string) :
  isLoading st = false ->
  isLoading (final (submitFragment svc st fragment)) = false.
Proof.
  intros Hl. destruct (guard_decide st fragment) as [Hg | Hg].
  - destruct (weaveNarrative svc (narrative (dreamState st)) fragment)
      as [segment | e] eqn:Hw.
    + destruct (generateDreamImage svc segment) as [img | e] eqn:Hi.
      * rewrite (path_both_succeeded svc st fragment segment img Hg Hw Hi).
        reflexivity.
      * rewrite (path_image_failed svc st fragment segment e Hg Hw Hi).
        reflexivity.
    + rewrite (path_narrative_failed svc st fragment e Hg Hw). reflexivity.
  - rewrite (path_rejected_by_guard svc st fragment Hg). exact Hl.
Qed.

Lemma session_settles (subs : list (Services * js_string)) (st : AppState) :
  isLoading st = false -> isLoading (session st subs) = false.
Proof.
  revert st. induction subs as [| [svc fragment] rest IH]; intros st H; simpl.
  - exact H.
  - apply IH, submitFragment_settles, H.
Qed.

(** X4: in a session mounted with a usable credential, after any
    sequence of submissions (each settled before the next) the busy flag
    is cleared, the spinner is off, and exactly one of the welcome block
    and the narrative display is on screen: there is always one input
    control, and never two. *)
Theorem ready_session_has_one_input (API_KEY : option js_string)
    (subs : list (Services * js_string)) :
  usableKey API_KEY = true ->
  let st := session (mounted API_KEY) subs in
  isLoading st = false
  /\ spinnerShown st = false
  /\ welcomeShown st = negb (dreamscapeShown st).
Proof.
  intros H st.
  assert (Hl : isLoading st = false).
  { apply session_settles. rewrite mounted_state. reflexivity. }
  assert (Hk : apiKeyOk st = true).
  { subst st. destruct (session_keeps subs (mounted API_KEY)) as (Hk & _).
    rewrite Hk, mounted_state. exact H. }
  split; [exact Hl |]. apply settled_screen; assumption.
Qed.

Lemma ready_session_has_one_input_witness :
  let st := session (mounted (Some (lit "k-123")))
              [(muteServices, lit "A door opens.");
               (quotaServices, lit "A door opens.");
               (stepServices, lit "I step through.")] in
  isLoading st = false
  /\ spinnerShown st = false
  /\ welcomeShown st = negb (dreamscapeShown st).
Proof.
  apply (ready_session_has_one_input (Some (lit "k-123"))
           [(muteServices, lit "A door opens.");
            (quotaServices, lit "A door opens.");
            (stepServices, lit "I step through.")]).
  reflexivity.
Defined.



(** X6: an [Error] whose message is the empty string fails silently.  At
    either stage of an admitted submission the error becomes the empty
    string, which the view treats as no error: no error box is on screen
    once the submission has settled. *)
Theorem empty_message_shows_no_error (svc : Services) (st : AppState)
    (fragment : js_string) :
  admitted_by_guard st fragment ->
  (weaveNarrative svc (narrative (dreamState st)) fragment
   = Rejected (ErrorInstance []) ->
   error (final (submitFragment svc st fragment)) = Some []
   /\ errorBanner (final (submitFragment svc st fragment)) = None)
  /\ (forall S,
        weaveNarrative svc (narrative (dreamState st)) fragment = Fulfilled S ->
        generateDreamImage svc S = Rejected (ErrorInstance []) ->
        error (final (submitFragment svc st fragment)) = Some []
        /\ errorBanner (final (submitFragment svc st fragment)) = None).
Proof.
  intros Hg. pose proof Hg as [Hk _]. split.
  - intros Hw. rewrite (path_narrative_failed svc st fragment _ Hg Hw).
    unfold errorBanner, render. cbn. rewrite Hk. split; reflexivity.
  - intros S Hw Hi. rewrite (path_image_failed svc st fragment S _ Hg Hw Hi).
    unfold errorBanner, render. cbn. rewrite Hk. split; reflexivity.
Qed.

Lemma empty_message_shows_no_error_witness :
  let silent :=
    {| weaveNarrative := fun _ _ => Rejected (ErrorInstance []);
       generateDreamImage := fun _ => Rejected (ErrorInstance []) |} in
  error (final (submitFragment silent fogState (lit "I step through."))) = Some []
  /\ errorBanner (final (submitFragment silent fogState (lit "I step through.")))
     = None.
Proof.
  intros silent.
  apply (empty_message_shows_no_error silent fogState (lit "I step through.")).
  - split; [reflexivity | vm_compute; discriminate].
  - reflexivity.
Defined.

(** ** Invariants of a session *)

Lemma submitFragment_extends (svc : Services) (st : AppState)
    (fragment : js_string) :
  exists suffix,
    narrative (dreamState (final (submitFragment svc st fragment)))
    = narrative (dreamState st) ++ suffix.
Proof.
  destruct (guard_decide st fragment) as [Hg | Hg].
  - destruct (weaveNarrative svc (narrative (dreamState st)) fragment)
      as [segment | e] eqn:Hw.
    + assert (Hn : exists suffix,
                 fst (nextSegments (narrative (dreamState st)) segment)
                 = narrative (dreamState st) ++ suffix).
      { destruct (narrative (dreamState st)) as [| c rest].
        - exists segment. reflexivity.
        - exists (blankLine ++ segment). reflexivity. }
      destruct (generateDreamImage svc segment) as [img | e] eqn:Hi.
      * rewrite (path_both_succeeded svc st fragment segment img Hg Hw Hi).
        exact Hn.
      * rewrite (path_image_failed svc st fragment segment e Hg Hw Hi).
        exact Hn.
    + rewrite (path_narrative_failed svc st fragment e Hg Hw).
      exists []. cbn. symmetry. apply app_nil_r.
  - rewrite (path_rejected_by_guard svc st fragment Hg).
    exists []. cbn. symmetry. apply app_nil_r.
Qed.

(** X7: the narrative only grows.  Through any sequence of submissions
    (each settled before the next), whatever the services answer, the
    narrative the session started with is a prefix of the narrative it
    ends with: nothing already woven is rewritten or dropped. *)
Theorem narrative_only_grows (subs : list (Services * js_string))
    (st : AppState) :
  exists suffix,
    narrative (dreamState (session st subs))
    = narrative (dreamState st) ++ suffix.
Proof.
  revert st. induction subs as [| [svc fragment] rest IH]; intros st; simpl.
  - exists []. symmetry. apply app_nil_r.
  - destruct (IH (final (submitFragment svc st fragment))) as [later Hlater].
    destruct (submitFragment_extends svc st fragment) as [now Hnow].
    exists (now ++ later). rewrite Hlater, Hnow. symmetry. apply app_assoc.
Qed.

Lemma submitFragment_image (svc : Services) (st : AppState)
    (fragment : js_string) :
  imageUrl (dreamState (final (submitFragment svc st fragment)))
  = imageUrl (dreamState st)
  \/ exists base64Image,
       imageUrl (dreamState (final (submitFragment svc st fragment)))
       = Some (dataUrlPrefix ++ base64Image).
Proof.
  destruct (guard_decide st fragment) as [Hg | Hg].
  - destruct (weaveNarrative svc (narrative (dreamState st)) fragment)
      as [segment | e] eqn:Hw.
    + destruct (generateDreamImage svc segment) as [img | e] eqn:Hi.
      * rewrite (path_both_succeeded svc st fragment segment img Hg Hw Hi).
        right. exists img. reflexivity.
      * rewrite (path_image_failed svc st fragment segment e Hg Hw Hi).
        left. reflexivity.
    + rewrite (path_narrative_failed svc st fragment e Hg Hw).
      left. reflexivity.
  - rewrite (path_rejected_by_guard svc st fragment Hg). left. reflexivity.
Qed.


(** X9: an image once shown is never taken away.  If the state holds an
    image reference, then after any sequence of submissions, failed or
    not, it still holds one: the old reference or a newer one. *)
Theorem image_never_cleared (subs : list (Services * js_string))
    (st : AppState) (u : js_string) :
  imageUrl (dreamState st) = Some u ->
  exists u', imageUrl (dreamState (session st subs)) = Some u'.
Proof.
  revert st u. induction subs as [| [svc fragment] rest IH];
    intros st u H; simpl.
  - exists u. exact H.
  - destruct (submitFragment_image svc st fragment) as [Hsame | [b Hnew]].
    + apply (IH _ u). rewrite Hsame. exact H.
    + apply (IH _ (dataUrlPrefix ++ b)). exact Hnew.
Qed.

Lemma image_never_cleared_witness :
  exists u',
    imageUrl (dreamState (session fogState
                [(quotaServices, lit "I step through.");
                 (stepServices, lit "I step through.")]))
    = Some u'.
Proof.
  apply (image_never_cleared
           [(quotaServices, lit "I step through.");
            (stepServices, lit "I step through.")]
           fogState (lit "data:image/png;base64," ++ lit "iVBORw0KGgo=")).
  reflexivity.
Defined.

(** ** Handlers of any render *)

Lemma nextSegments_extends (current segment : js_string) :
  exists suffix, fst (nextSegments current segment) = current ++ suffix.
Proof.
  destruct current as [| c rest].
  - exists segment. reflexivity.
  - exists (blankLine ++ segment). reflexivity.
Qed.

(** X10: whatever render built the handler and whatever state it runs in,
    one invocation makes no service call exactly when the guard rejects
    it; otherwise it calls the narrative service once, on the captured
    narrative and the fragment, and calls the image service only after
    that call succeeded, once, with the new segment as prompt. *)
Theorem service_calls_shape (svc : Services) (capturedApiKeyOk : bool)
    (capturedNarrative fragment : js_string) (st : AppState) :
  let made :=
    calls (trace (invoke svc capturedApiKeyOk capturedNarrative fragment st)) in
  ((capturedApiKeyOk = false \/ trim fragment = []) /\ made = [])
  \/ (capturedApiKeyOk = true /\ trim fragment <> []
      /\ exists e,
           weaveNarrative svc capturedNarrative fragment = Rejected e
           /\ made = [WeaveNarrative capturedNarrative fragment])
  \/ (capturedApiKeyOk = true /\ trim fragment <> []
      /\ exists S,
           weaveNarrative svc capturedNarrative fragment = Fulfilled S
           /\ made = [WeaveNarrative capturedNarrative fragment;
                      GenerateDreamImage S]).
Proof.
  intros made. subst made.
  destruct (invoke_as_submission svc capturedApiKeyOk capturedNarrative
              fragment st) as (_ & Hcalls & _).
  rewrite Hcalls. clear Hcalls.
  set (origin := {| dreamState := {| narrative := capturedNarrative;
                                     imageUrl := None |};
                    isLoading := false; error := None;
                    apiKeyOk := capturedApiKeyOk; showWelcome := true |}).
  destruct (guard_decide origin fragment) as [Hg | Hg].
  - right. pose proof Hg as [Hk Hf]. cbn in Hk.
    destruct (weaveNarrative svc capturedNarrative fragment)
      as [segment | e] eqn:Hw.
    + right. repeat split; try assumption. exists segment.
      split; [reflexivity |].
      destruct (generateDreamImage svc segment) as [img | e] eqn:Hi.
      * rewrite (path_both_succeeded svc origin fragment segment img Hg Hw Hi).
        reflexivity.
      * rewrite (path_image_failed svc origin fragment segment e Hg Hw Hi).
        reflexivity.
    + left. repeat split; try assumption. exists e.
      split; [reflexivity |].
      rewrite (path_narrative_failed svc origin fragment e Hg Hw). reflexivity.
  - left. split; [exact Hg |].
    rewrite (path_rejected_by_guard svc origin fragment Hg). reflexivity.
Qed.

(** X11: whatever render built the handler and whatever the services
    answer, an invocation never calls [setShowWelcome(true)], never calls
    [setApiKeyOk], and every narrative it writes starts with the narrative
    it captured. *)
Theorem handler_never_resets (svc : Services) (capturedApiKeyOk : bool)
    (capturedNarrative fragment : js_string) (st : AppState) :
  Forall
    (fun a =>
       a <> SetShowWelcome true
       /\ (forall b, a <> SetApiKeyOk b)
       /\ (forall n, a = SetNarrative n ->
                     exists suffix, n = capturedNarrative ++ suffix))
    (actions (trace (invoke svc capturedApiKeyOk capturedNarrative fragment st))).
Proof.
  destruct (invoke_as_submission svc capturedApiKeyOk capturedNarrative
              fragment st) as (Hacts & _ & _).
  rewrite Hacts. clear Hacts.
  set (origin := {| dreamState := {| narrative := capturedNarrative;
                                     imageUrl := None |};
                    isLoading := false; error := None;
                    apiKeyOk := capturedApiKeyOk; showWelcome := true |}).
  assert (Hplain : forall a,
             writesNarrative a = None ->
             a <> SetShowWelcome true ->
             (forall b, a <> SetApiKeyOk b) ->
             a <> SetShowWelcome true
             /\ (forall b, a <> SetApiKeyOk b)
             /\ (forall n, a = SetNarrative n ->
                           exists suffix, n = capturedNarrative ++ suffix)).
  { intros a Hw H1 H2. repeat split; try assumption.
    intros n ->. discriminate Hw. }
  assert (Hwrite : forall segment,
             SetNarrative (fst (nextSegments capturedNarrative segment))
             <> SetShowWelcome true
             /\ (forall b, SetNarrative (fst (nextSegments capturedNarrative segment))
                           <> SetApiKeyOk b)
             /\ (forall n,
                   SetNarrative (fst (nextSegments capturedNarrative segment))
                   = SetNarrative n ->
                   exists suffix, n = capturedNarrative ++ suffix)).
  { intros segment. repeat split; try discriminate.
    intros n H. injection H as <-. apply nextSegments_extends. }
  destruct (guard_decide origin fragment) as [Hg | Hg].
  - destruct (weaveNarrative svc (narrative (dreamState origin)) fragment)
      as [segment | e] eqn:Hw.
    + destruct (generateDreamImage svc segment) as [img | e] eqn:Hi.
      * rewrite (path_both_succeeded svc origin fragment segment img Hg Hw Hi).
        cbn.
        repeat (apply Forall_cons;
                [ first [ apply Hwrite
                        | apply Hplain;
                          [reflexivity | discriminate | discriminate] ] |]).
        apply Forall_nil.
      * rewrite (path_image_failed svc origin fragment segment e Hg Hw Hi).
        cbn.
        repeat (apply Forall_cons;
                [ first [ apply Hwrite
                        | apply Hplain;
                          [reflexivity | discriminate | discriminate] ] |]).
        apply Forall_nil.
    + rewrite (path_narrative_failed svc origin fragment e Hg Hw).
      cbn.
      repeat (apply Forall_cons;
              [apply Hplain; [reflexivity | discriminate | discriminate] |]).
      apply Forall_nil.
  - rewrite (path_rejected_by_guard svc origin fragment Hg). constructor.
Qed.

(** ** Overlapping submissions *)

Lemma interleaving_app {A : Type} (l1 l2 : list A) :
  interleaving l1 l2 (l1 ++ l2).
Proof.
  induction l1 as [| a l1 IH]; simpl.
  - induction l2 as [| b l2 IH2]; constructor. exact IH2.
  - constructor. exact IH.
Qed.

Lemma woven_last_write (svc : Services) (st : AppState)
    (fragment S : js_string) :
  admitted_by_guard st fragment ->
  weaveNarrative svc (narrative (dreamState st)) fragment = Fulfilled S ->
  lastNarrativeWrite (actions (trace (submitFragment svc st fragment)))
  = Some (fst (nextSegments (narrative (dreamState st)) S)).
Proof.
  intros Hg Hw.
  destruct (generateDreamImage svc S) as [img | e] eqn:Hi.
  - rewrite (path_both_succeeded svc st fragment S img Hg Hw Hi). reflexivity.
  - rewrite (path_image_failed svc st fragment S e Hg Hw Hi). reflexivity.
Qed.

(** X12: two submissions that overlap lose a segment.  The guard does not
    look at the busy flag, and the handler builds the new narrative from
    the narrative its render captured.  When the handler of one render is
    invoked twice before either run commits, and both narrative calls
    succeed, then in whatever order the setter calls of the two runs
    interleave, the narrative at the end is the captured narrative
    extended by one of the two segments only.  (The setter calls of a run
    are the same in whatever state it runs, [run_any_state], and the state
    they lead to is their replay, [run_final_replay].) *)
Theorem overlapping_submissions_keep_one_segment
    (svc1 svc2 : Services) (st : AppState)
    (fragment1 fragment2 S1 S2 : js_string) (acts : list action) :
  admitted_by_guard st fragment1 ->
  admitted_by_guard st fragment2 ->
  weaveNarrative svc1 (narrative (dreamState st)) fragment1 = Fulfilled S1 ->
  weaveNarrative svc2 (narrative (dreamState st)) fragment2 = Fulfilled S2 ->
  interleaving (actions (trace (submitFragment svc1 st fragment1)))
               (actions (trace (submitFragment svc2 st fragment2)))
               acts ->
  narrative (dreamState (replay acts st))
  = fst (nextSegments (narrative (dreamState st)) S1)
  \/ narrative (dreamState (replay acts st))
     = fst (nextSegments (narrative (dreamState st)) S2).
Proof.
  intros Hg1 Hg2 Hw1 Hw2 Hmix.
  rewrite replay_narrative.
  destruct (interleaving_last_write _ _ _ Hmix) as [H | H]; rewrite H.
  - left. rewrite (woven_last_write svc1 st fragment1 S1 Hg1 Hw1). reflexivity.
  - right. rewrite (woven_last_write svc2 st fragment2 S2 Hg2 Hw2). reflexivity.
Qed.

Lemma overlapping_submissions_keep_one_segment_witness :
  let acts :=
    actions (trace (submitFragment stepServices fogState (lit "I step through.")))
    ++ actions (trace (submitFragment fogServices fogState (lit "A door opens."))) in
  narrative (dreamState (replay acts fogState))
  = lit "A door opens into fog." ++ [10; 10]
      ++ lit "You step through and the fog swallows you."
  \/ narrative (dreamState (replay acts fogState))
     = lit "A door opens into fog." ++ [10; 10] ++ lit "A door opens into fog.".
Proof.
  apply (overlapping_submissions_keep_one_segment stepServices fogServices
           fogState (lit "I step through.") (lit "A door opens.")
           (lit "You step through and the fog swallows you.")
           (lit "A door opens into fog.")).
  - split; [reflexivity | vm_compute; discriminate].
  - split; [reflexivity | vm_compute; discriminate].
  - reflexivity.
  - reflexivity.
  - apply interleaving_app.
Defined.

(** ** Back on the same screen *)

(** X13: a narrative failure returns the user to the screen they
    submitted from.  When an admitted submission made from a settled state
    fails at the narrative call, the welcome block and the narrative
    display are on or off screen as before, the spinner is off, and the
    error box shows the message unless the message is empty. *)
Theorem narrative_failure_keeps_screen (svc : Services) (st : AppState)
    (fragment : js_string) (e : thrown) :
  admitted_by_guard st fragment ->
  isLoading st = false ->
  weaveNarrative svc (narrative (dreamState st)) fragment = Rejected e ->
  let st' := final (submitFragment svc st fragment) in
  welcomeShown st' = welcomeShown st
  /\ dreamscapeShown st' = dreamscapeShown st
  /\ spinnerShown st' = false
  /\ errorBanner st'
     = if truthy (messageOr e narrativeFallback)
       then Some (messageOr e narrativeFallback) else None.
Proof.
  intros Hg Hl Hw st'. subst st'.
  rewrite (path_narrative_failed svc st fragment e Hg Hw).
  destruct Hg as [Hk _].
  unfold welcomeShown, dreamscapeShown, spinnerShown, errorBanner, render.
  cbn. rewrite Hk, Hl. cbn. rewrite andb_true_r. repeat split.
Qed.

Lemma narrative_failure_keeps_screen_witness :
  let st' := final (submitFragment quotaServices readyState (lit "A door opens.")) in
  welcomeShown st' = welcomeShown readyState
  /\ dreamscapeShown st' = dreamscapeShown readyState
  /\ spinnerShown st' = false
  /\ errorBanner st' = Some (lit "quota exceeded").
Proof.
  apply (narrative_failure_keeps_screen quotaServices readyState
           (lit "A door opens.") (ErrorInstance (lit "quota exceeded"))).
  - split; [reflexivity | vm_compute; discriminate].
  - reflexivity.
  - reflexivity.
Defined.
